(** * The in-memory item CRUD service of [express_basics.js]

    A shallow embedding of the Express teaching server: the item store, the
    two validation paths of [validateItem] (Joi schema or manual fallback),
    the token check [authStub], the route handlers of [buildApp] and the
    central error handler, followed by the properties of the service. *)

From Stdlib Require Import ZArith NArith Ascii String Decimal DecimalString DecimalZ.
From Stdlib Require Import PrimFloat.
From stdpp Require Import base option list gmap.

Local Open Scope Z_scope.

(** ** JavaScript strings

    A JavaScript string is a sequence of UTF-16 code units; [length] counts
    code units and [===] compares them one by one. *)

Definition jsstring := list N.

(** String literals of the source are ASCII. *)
Definition lit (s : string) : jsstring :=
  map N_of_ascii (list_ascii_of_string s).

(** WhiteSpace and LineTerminator code points of ECMAScript, the characters
    that [String.prototype.trim] strips. *)
Definition isWhiteSpace (c : N) : bool :=
  ((9 <=? c) && (c <=? 13) || (c =? 32) || (c =? 160) || (c =? 5760)
   || (8192 <=? c) && (c <=? 8202) || (c =? 8232) || (c =? 8233)
   || (c =? 8239) || (c =? 8287) || (c =? 12288) || (c =? 65279))%N.

Fixpoint trimStart (s : jsstring) : jsstring :=
  match s with
  | [] => []
  | c :: s' => if isWhiteSpace c then trimStart s' else s
  end.

Definition trimEnd (s : jsstring) : jsstring := reverse (trimStart (reverse s)).

(** [s.trim()] *)
Definition trim (s : jsstring) : jsstring := trimEnd (trimStart s).

(** [String(n)] for the integer [n] that [Date.now()] returns: its decimal
    digits, with a leading minus sign below zero. *)
Definition String_ (n : Z) : jsstring := lit (NilEmpty.string_of_int (Z.to_int n)).

(** ** JSON values, as [express.json()] hands them to a handler *)

#[warnings="-register-all"]
Inductive json : Type :=
| JNull
| JBool (b : bool)
| JNum (x : float)
| JStr (s : jsstring)
| JArr (elems : list json)
| JObj (props : gmap jsstring json).

(** [req.body]. In its default strict mode the body parser accepts only a
    top-level object or array; without a parsed body [req.body] stays
    [undefined] (Express 5) or is the empty object (Express 4). *)
Inductive reqBody : Type :=
| BodyUndefined
| BodyArray (elems : list json)
| BodyObject (props : gmap jsstring json).

(** [body.key], [None] standing for [undefined]. An array has no own or
    inherited property called [name] or [done]. *)
Definition prop (body : reqBody) (key : jsstring) : option json :=
  match body with
  | BodyObject props => props !! key
  | _ => None
  end.

(** [Boolean(v)]: the truthiness of a property value. *)
Definition Boolean (v : option json) : bool :=
  match v with
  | None | Some JNull => false
  | Some (JBool b) => b
  | Some (JNum x) => negb (PrimFloat.eqb x 0%float || PrimFloat.is_nan x)
  | Some (JStr s) => negb (bool_decide (s = []))
  | Some (JArr _) | Some (JObj _) => true
  end.

(** Truthiness of [req.body] itself. *)
Definition truthy (body : reqBody) : bool :=
  match body with
  | BodyUndefined => false
  | _ => true
  end.

(** The part of an item that validation produces: an object whose [name] and
    [done] properties may each be missing. *)
Record Validated : Type := mkValidated {
  v_name : option jsstring;
  v_done : option bool;
}.

(** ** The Joi schemas that [itemSchema] is built from

    Joi is a dependency, not part of the repository; this is the behaviour of
    [any.validate] under Joi's default options ([convert], [abortEarly], no
    unknown keys, every key optional unless [required()]), for the three
    schema types the source uses. An error is recorded by its Joi type code;
    the rendered message text is not modelled. *)
Module Joi.

Inductive code : Type :=
| any_required | string_base | string_empty | string_min | string_max
| boolean_base | object_base | object_unknown.

Record StringSchema : Type := {
  str_min : option nat;
  str_max : option nat;
  str_required : bool;
}.

Record BooleanSchema : Type := {
  bool_default : option bool;
}.

(** The keys of [Joi.object({ name: ..., done: ... })]. *)
Record ObjectSchema : Type := {
  name : StringSchema;
  done : BooleanSchema;
}.

Definition string : StringSchema :=
  {| str_min := None; str_max := None; str_required := false |}.
Definition min (n : nat) (s : StringSchema) : StringSchema :=
  {| str_min := Some n; str_max := str_max s; str_required := str_required s |}.
Definition max (n : nat) (s : StringSchema) : StringSchema :=
  {| str_min := str_min s; str_max := Some n; str_required := str_required s |}.
Definition required (s : StringSchema) : StringSchema :=
  {| str_min := str_min s; str_max := str_max s; str_required := true |}.

Definition boolean : BooleanSchema := {| bool_default := None |}.
Definition default (b : bool) (s : BooleanSchema) : BooleanSchema :=
  {| bool_default := Some b |}.

Definition object (keys : ObjectSchema) : ObjectSchema := keys.

(** A string schema: the value must be a string, the empty string is
    refused, then the length rules run in the order they were added. No
    [trim()] rule is set, so the value is returned as it came. *)
Definition validate_string (sch : StringSchema) (v : option json)
  : code + option jsstring :=
  match v with
  | None => if str_required sch then inl any_required else inr None
  | Some (JStr s) =>
      if bool_decide (s = []) then inl string_empty
      else if from_option (fun n => length s <? n)%nat false (str_min sch) then inl string_min
      else if from_option (fun n => n <? length s)%nat false (str_max sch) then inl string_max
      else inr (Some s)
  | Some _ => inl string_base
  end.

(** [value.toLowerCase()], on the letters that matter for the comparison
    with ['true'] and ['false']: no code unit outside A-Z lower-cases to
    one of the letters of these two words. *)
Definition toLowerCase (s : jsstring) : jsstring :=
  map (fun c => if (65 <=? c) && (c <=? 90) then c + 32 else c)%N s.

(** A boolean schema: a string equal to ['true'] or ['false'] up to case
    is converted, any other non-boolean is refused. *)
Definition validate_boolean (sch : BooleanSchema) (v : option json)
  : code + option bool :=
  match v with
  | None => inr (bool_default sch)
  | Some (JBool b) => inr (Some b)
  | Some (JStr s) =>
      if bool_decide (toLowerCase s = lit "true") then inr (Some true)
      else if bool_decide (toLowerCase s = lit "false") then inr (Some false)
      else inl boolean_base
  | Some _ => inl boolean_base
  end.

(** [schema.validate(body)]: [inl] is [error.details], [inr] is [value]
    ([None] for [undefined], which an object schema that is not
    [required()] lets through). The keys are checked in schema order, then
    the keys the schema does not know. *)
Definition validate (sch : ObjectSchema) (body : reqBody)
  : list code + option Validated :=
  match body with
  | BodyUndefined => inr None
  | BodyArray _ => inl [object_base]
  | BodyObject props =>
      match validate_string (name sch) (props !! lit "name") with
      | inl e => inl [e]
      | inr n =>
          match validate_boolean (done sch) (props !! lit "done") with
          | inl e => inl [e]
          | inr d =>
              if bool_decide (delete (lit "name") (delete (lit "done") props) = ∅)
              then inr (Some (mkValidated n d))
              else inl [object_unknown]
          end
      end
  end.

End Joi.

(** ** Items and the store *)

(** An item of [store.items]. [name] and [done] are the properties spread
    from the validated value; they are missing when that value had none. *)
Record Item : Type := mkItem {
  id : jsstring;
  name : option jsstring;
  done : option bool;
}.

Record Store : Type := mkStore {
  items : list Item;
}.

(** The in-memory store as the module creates it. *)
Definition store : Store :=
  mkStore [ mkItem (lit "1") (Some (lit "First")) (Some false);
            mkItem (lit "2") (Some (lit "Second")) (Some true) ].

(** [{ id, ...validated }] *)
Definition spread_new (i : jsstring) (validated : option Validated) : Item :=
  match validated with
  | None => mkItem i None None
  | Some v => mkItem i (v_name v) (v_done v)
  end.

(** [{ ...item, ...validated }]: a property of [validated] wins over the
    item's, and [validated] never carries an [id]. *)
Definition spread_over (item : Item) (validated : option Validated) : Item :=
  match validated with
  | None => item
  | Some v =>
      mkItem (id item)
             (match v_name v with Some n => Some n | None => name item end)
             (match v_done v with Some d => Some d | None => done item end)
  end.

(** ** Errors and responses *)

(** [err.message]: a literal of the source, or the joined messages of the
    Joi error details. *)
Inductive message : Type :=
| Text (s : jsstring)
| JoiDetails (details : list Joi.code).

(** An [Error] object with the [status] property the source sets on it. *)
Record Error : Type := mkError {
  err_message : message;
  err_status : option Z;
}.

Record User : Type := mkUser {
  user_id : jsstring;
  token : jsstring;
}.

(** The JSON bodies the handlers send. *)
Inductive resBody : Type :=
| user_ (user : User)
| data_ (data : list Item)
| item_ (item : Item)
| removed_ (removed : bool)
| error_ (error : message)
| error_path_ (error : message) (path : jsstring).

Record Response : Type := mkResponse {
  res_status : Z;
  res_body : resBody;
}.

(** [res.json(b)] with the default status, and [res.status(s).json(b)]. *)
Definition json_ (b : resBody) : Response := mkResponse 200 b.
Definition status_json (s : Z) (b : resBody) : Response := mkResponse s b.

(** ** Handlers: computations over the store that may throw *)

(** A handler body reads and writes [store.items] and either returns or
    throws; what it wrote before throwing stays written. *)
Definition Handler (A : Type) : Type := Store -> (Error + A) * Store.

Definition ret {A} (a : A) : Handler A := fun st => (inr a, st).
Definition bind {A B} (m : Handler A) (k : A -> Handler B) : Handler B :=
  fun st =>
    match m st with
    | (inl e, st') => (inl e, st')
    | (inr a, st') => k a st'
    end.
Definition get_items : Handler (list Item) := fun st => (inr (items st), st).
Definition set_items (l : list Item) : Handler unit := fun _ => (inr tt, mkStore l).

#[export] Instance handler_ret : MRet Handler := @ret.
#[export] Instance handler_bind : MBind Handler := fun A B k m => bind m k.

(** A function that returns or throws, called from a handler body. *)
Definition call {A} (r : Error + A) : Handler A := fun st => (r, st).

(** ** Validation *)

(** [itemSchema]: the schema when Joi could be loaded, [null] otherwise. *)
Definition itemSchema (Joi : bool) : option Joi.ObjectSchema :=
  if Joi
  then Some (Joi.object
               {| Joi.name := Joi.required (Joi.max 120 (Joi.min 1 Joi.string));
                  Joi.done := Joi.default false Joi.boolean |})
  else None.

(** [validateItem(body)]: the validated value, or an error with status 400. *)
Definition validateItem (Joi : bool) (body : reqBody) : Error + option Validated :=
  match itemSchema Joi with
  | Some schema =>
      match Joi.validate schema body with
      | inl details => inl (mkError (JoiDetails details) (Some 400))
      | inr value => inr value
      end
  | None =>
      (* Fallback minimal validation *)
      let required := inl (mkError (Text (lit "name is required")) (Some 400)) in
      if negb (truthy body) then required
      else
        match prop body (lit "name") with
        | Some (JStr n) =>
            if bool_decide (trim n = []) then required
            else inr (Some (mkValidated (Some (trim n))
                                        (Some (Boolean (prop body (lit "done"))))))
        | _ => required
        end
  end.

(** ** The token check *)

(** [req.headers]: header names in lower case, each with its string value. *)
Definition Headers := gmap jsstring jsstring.

(** [authStub]: the user it stores in [req.user], or the error it passes to
    [next]. The empty string is falsy, like a missing header. *)
Definition authStub (headers : Headers) : Error + User :=
  match headers !! lit "x-demo-token" with
  | Some tok =>
      if bool_decide (tok = [])
      then inl (mkError (Text (lit "missing token")) (Some 401))
      else inr (mkUser (lit "user-123") tok)
  | None => inl (mkError (Text (lit "missing token")) (Some 401))
  end.

(** ** Routes *)

(** The requests that get past the middleware chain (security headers,
    CORS, logging, rate limit, body parser, static files) and reach the
    token check, a route on the store, or the 404 handler. The handlers hold
    no [await], so each request is served to completion before the next. *)
Inductive Request : Type :=
| GET_me (headers : Headers)
| GET_items
| POST_items (body : reqBody)
| PUT_items (param_id : jsstring) (body : reqBody)
| DELETE_items (param_id : jsstring)
| unmatched (path : jsstring).

Definition get_me (headers : Headers) : Handler Response :=
  user ← call (authStub headers);
  mret (json_ (user_ user)).

Definition get_items_route : Handler Response :=
  l ← get_items;
  mret (json_ (data_ l)).

(** [now] is the value of [Date.now()] when the handler runs. *)
Definition post_items (Joi : bool) (now : Z) (body : reqBody) : Handler Response :=
  validated ← call (validateItem Joi body);
  let i := String_ now in
  let item := spread_new i validated in
  l ← get_items;
  set_items (l ++ [item]);;
  mret (status_json 201 (item_ item)).

(** [findIndex] and the read of [store.items[idx]] are one [list_find]: the
    first position whose item has the id, with that item. The item sent is
    the one just written at [idx]. *)
Definition put_items (Joi : bool) (param_id : jsstring) (body : reqBody)
  : Handler Response :=
  validated ← call (validateItem Joi body);
  l ← get_items;
  match list_find (fun x => id x = param_id) l with
  | None => mret (status_json 404 (error_ (Text (lit "not_found"))))
  | Some (idx, old) =>
      let item := spread_over old validated in
      set_items (<[idx := item]> l);;
      mret (json_ (item_ item))
  end.

Definition delete_items (param_id : jsstring) : Handler Response :=
  l ← get_items;
  let before := length l in
  set_items (filter (fun x => id x ≠ param_id) l);;
  l' ← get_items;
  let removed := negb (before =? length l')%nat in
  mret (json_ (removed_ removed)).

(** The 404 handler. *)
Definition not_found (path : jsstring) : Handler Response :=
  mret (status_json 404 (error_path_ (Text (lit "not_found")) path)).

(** The central error handler: [err.status || 500] and
    [err.message || 'internal_error'] (joining no detail gives the empty
    string). The log line it writes is left out. *)
Definition errorHandler (err : Error) : Response :=
  let status :=
    match err_status err with
    | Some s => if s =? 0 then 500 else s
    | None => 500
    end in
  let msg :=
    match err_message err with
    | Text [] | JoiDetails [] => Text (lit "internal_error")
    | m => m
    end in
  status_json status (error_ msg).

Definition route (Joi : bool) (now : Z) (req : Request) : Handler Response :=
  match req with
  | GET_me headers => get_me headers
  | GET_items => get_items_route
  | POST_items body => post_items Joi now body
  | PUT_items i body => put_items Joi i body
  | DELETE_items i => delete_items i
  | unmatched path => not_found path
  end.

(** One request served to completion: the response sent and the store left
    behind. A thrown error goes to the error handler. *)
Definition serve (Joi : bool) (now : Z) (req : Request) (st : Store)
  : Response * Store :=
  match route Joi now req st with
  | (inr res, st') => (res, st')
  | (inl err, st') => (errorHandler err, st')
  end.

(** A run of the server: requests in arrival order, each with the clock
    reading its handler sees. *)
Fixpoint run (Joi : bool) (reqs : list (Z * Request)) (st : Store)
  : list Response * Store :=
  match reqs with
  | [] => ([], st)
  | (now, req) :: reqs' =>
      let '(res, st') := serve Joi now req st in
      let '(ress, st'') := run Joi reqs' st' in
      (res :: ress, st'')
  end.

(** The stores a freshly started server can be in. *)
Definition reachable (Joi : bool) (st : Store) : Prop :=
  exists reqs, (run Joi reqs store).2 = st.

(** ** What a run shows from outside *)

(** The ids of the items of a store, in store order. *)
Definition ids (st : Store) : list jsstring := id <$> items st.

(** Does [validateItem] return rather than throw? *)
Definition valid (Joi : bool) (body : reqBody) : bool :=
  match validateItem Joi body with
  | inr _ => true
  | inl _ => false
  end.

(** The clock readings at which the POST requests of a run create an item:
    those of the requests whose body passes validation. *)
Fixpoint created_at (Joi : bool) (reqs : list (Z * Request)) : list Z :=
  match reqs with
  | [] => []
  | (now, POST_items body) :: reqs' =>
      if valid Joi body then now :: created_at Joi reqs' else created_at Joi reqs'
  | _ :: reqs' => created_at Joi reqs'
  end.

(** The ids of all items ever inserted, in insertion order: the items the
    store starts with, then one per successful POST. *)
Definition inserted (Joi : bool) (reqs : list (Z * Request)) (st : Store)
  : list jsstring :=
  ids st ++ (String_ <$> created_at Joi reqs).

(** The clock never shows the same instant to two successful POSTs, and
    never an instant whose decimal form is the id of a seed item. *)
Definition fresh_clock (Joi : bool) (reqs : list (Z * Request)) : Prop :=
  NoDup (created_at Joi reqs) ∧ (1 ∉ created_at Joi reqs) ∧ (2 ∉ created_at Joi reqs).

(** The requests of a run, each with the response it got. *)
Definition transcript (Joi : bool) (reqs : list (Z * Request)) (st : Store)
  : list (Request * Response) :=
  zip (reqs.*2) (run Joi reqs st).1.

(** A successful append: POST /items answered 201. *)
Definition is_append (x : Request * Response) : bool :=
  match x.1 with
  | POST_items _ => bool_decide (res_status x.2 = 201)
  | _ => false
  end.

(** A successful delete: DELETE /items/:id answered [{removed: true}]. *)
Definition is_delete (x : Request * Response) : bool :=
  match x.1, res_body x.2 with
  | DELETE_items _, removed_ true => true
  | _, _ => false
  end.

Definition appends (log : list (Request * Response)) : nat :=
  length (List.filter is_append log).
Definition deletes (log : list (Request * Response)) : nat :=
  length (List.filter is_delete log).

(** The number of items the DELETE requests of a run take out of the store:
    for each, the items that carry its id when it is served. *)
Fixpoint removals (Joi : bool) (reqs : list (Z * Request)) (st : Store) : nat :=
  match reqs with
  | [] => 0
  | (now, req) :: reqs' =>
      (match req with
       | DELETE_items i => length (filter (fun x => id x = i) (items st))
       | _ => 0
       end + removals Joi reqs' (serve Joi now req st).2)%nat
  end.

(** A string of [n] letters [a]. *)
Definition letters (n : nat) : jsstring := replicate n 97%N.

(** ** Sample requests *)

(** A clock reading in milliseconds since the epoch. *)
Definition t0 : Z := 1700000000000.

(** [{"name": "Third"}], [{"name": "Fourth"}], [{"name": " "}] and [{}] *)
Definition third : reqBody := BodyObject {[ lit "name" := JStr (lit "Third") ]}.
Definition fourth : reqBody := BodyObject {[ lit "name" := JStr (lit "Fourth") ]}.
Definition blank : reqBody := BodyObject {[ lit "name" := JStr (lit " ") ]}.
Definition empty_object : reqBody := BodyObject ∅.

(** A body whose name has 121 letters. *)
Definition long_name : reqBody := BodyObject {[ lit "name" := JStr (letters 121) ]}.

(** Two appends, a replace, a delete and a repeated delete, at rising clock
    readings. *)
Definition session : list (Z * Request) :=
  [ (t0, POST_items third);
    (t0 + 1, POST_items fourth);
    (t0 + 2, PUT_items (lit "2") third);
    (t0 + 3, DELETE_items (String_ t0));
    (t0 + 4, DELETE_items (String_ t0));
    (t0 + 5, GET_items) ].

(** Two appends within the same millisecond. *)
Definition burst : list (Z * Request) :=
  [ (t0, POST_items third); (t0, POST_items fourth) ].

(** One append on a fresh server. *)
Definition one_append : list (Z * Request) := [ (t0, POST_items third) ].

(** Headers with a token, and with a token header whose value is empty. *)
Definition with_token : Headers := {[ lit "x-demo-token" := lit "secret" ]}.
Definition empty_token : Headers := {[ lit "x-demo-token" := [] ]}.

(** [{"name": "Fifth", "done": true}] *)
Definition fifth : reqBody :=
  BodyObject {[ lit "name" := JStr (lit "Fifth"); lit "done" := JBool true ]}.

(** ** Configuration *)

(** [s.split(sep)] for a separator of one code unit: the parts between the
    separators, one part more than there are separators. *)
Fixpoint split (sep : N) (s : jsstring) : list jsstring :=
  match s with
  | [] => [[]]
  | c :: s' =>
      if (c =? sep)%N then [] :: split sep s'
      else
        match split sep s' with
        | part :: parts => (c :: part) :: parts
        | [] => [[c]]
        end
  end.

(** [v || d] on an environment variable: unset and empty are both falsy. *)
Definition or_default (v : option jsstring) (d : jsstring) : jsstring :=
  match v with
  | Some (c :: s) => c :: s
  | Some [] | None => d
  end.

(** [config.corsOrigins], from [process.env.CORS_ORIGINS]. *)
Definition corsOrigins (CORS_ORIGINS : option jsstring) : list jsstring :=
  trim <$> split 44 (or_default CORS_ORIGINS (lit "*")).

(** The [origin] option handed to [cors]: the string ['*'] or the list. *)
Inductive Origin : Type :=
| AnyOrigin
| AllowList (origins : list jsstring).

(** [config.corsOrigins.includes('*') ? '*' : config.corsOrigins] *)
Definition cors_origin (origins : list jsstring) : Origin :=
  if bool_decide (lit "*" ∈ origins) then AnyOrigin else AllowList origins.

(** ** Shapes of stored items *)

(** An item as the fallback path writes it: a name that is not empty and has
    no white space around it, and a [done]. *)
Definition trimmed_name (item : Item) : Prop :=
  exists n d, name item = Some n /\ done item = Some d /\ n <> [] /\ trim n = n.

(** An item as the Joi path writes it: its name, if it has one, is 1 to 120
    code units long. *)
Definition bounded_name (item : Item) : Prop :=
  forall n, name item = Some n -> (1 <= length n <= 120)%nat.

(** [{"name": n, "done": d}] *)
Definition body_of (n : jsstring) (d : bool) : reqBody :=
  BodyObject {[ lit "name" := JStr n; lit "done" := JBool d ]}.

(** [{"name": "Third", "done": "False"}] and [{"name": " Third "}] *)
Definition done_as_string : reqBody :=
  BodyObject {[ lit "name" := JStr (lit "Third"); lit "done" := JStr (lit "False") ]}.
Definition padded : reqBody :=
  BodyObject {[ lit "name" := JStr (lit " Third ") ]}.

(** * Properties *)

(** ** Strings *)

Lemma lit_inj (s t : string) : lit s = lit t -> s = t.
Proof.
  unfold lit. revert t.
  induction s as [|a s IH]; intros [|b t] H; simpl in H; try discriminate; [done|].
  injection H as Hab Hst.
  f_equal; [|by apply IH].
  rewrite <- (ascii_N_embedding a), <- (ascii_N_embedding b). by rewrite Hab.
Qed.

(** Two clock readings with the same decimal form are the same reading. *)
Lemma String_inj (m n : Z) : String_ m = String_ n -> m = n.
Proof.
  unfold String_. intros H%lit_inj.
  apply DecimalZ.to_int_inj.
  assert (Some (Z.to_int m) = Some (Z.to_int n)) as [= ->]; [|done].
  by rewrite <- !NilEmpty.isi, H.
Qed.

(** The ids of the seed items are the decimal forms of 1 and 2. *)
Lemma ids_store : ids store = [String_ 1; String_ 2].
Proof. reflexivity. Qed.

Lemma trimStart_nil_iff (s : jsstring) :
  trimStart s = [] <-> forallb isWhiteSpace s = true.
Proof.
  induction s as [|c s IH]; simpl; [done|].
  destruct (isWhiteSpace c); simpl; [done|].
  split; discriminate.
Qed.

Lemma trimStart_head (s t : jsstring) (c : N) :
  trimStart s = c :: t -> isWhiteSpace c = false.
Proof.
  induction s as [|d s IH]; simpl; [done|].
  destruct (isWhiteSpace d) eqn:E; [done|].
  by intros [= <- _].
Qed.

Lemma trimStart_snoc (s : jsstring) (c : N) :
  isWhiteSpace c = false -> trimStart (s ++ [c]) <> [].
Proof.
  intros Hc. induction s as [|d s IH]; simpl.
  - by rewrite Hc.
  - by destruct (isWhiteSpace d).
Qed.

(** What [trimStart] drops is white space only. *)
Lemma trimStart_split (s : jsstring) :
  exists pre, s = pre ++ trimStart s /\ forallb isWhiteSpace pre = true.
Proof.
  induction s as [|c s (pre & Hs & Hpre)]; simpl.
  - by exists [].
  - destruct (isWhiteSpace c) eqn:E.
    + exists (c :: pre). simpl. rewrite E, Hpre. split; [by f_equal|done].
    + by exists [].
Qed.

(** Trimming leaves nothing exactly when every character is white space. *)
Lemma trim_nil_iff (s : jsstring) :
  trim s = [] <-> forallb isWhiteSpace s = true.
Proof.
  rewrite <- trimStart_nil_iff. unfold trim, trimEnd. split.
  - intros H. destruct (trimStart s) as [|c t] eqn:E; [done|].
    apply trimStart_head in E.
    apply (f_equal reverse) in H. rewrite reverse_involutive, reverse_cons in H.
    by apply trimStart_snoc in H.
  - by intros ->.
Qed.

(** [trim] cuts a white-space prefix and a white-space suffix off the
    string, and what is left neither starts nor ends with white space. *)
Lemma trim_split (s : jsstring) :
  exists pre post,
    s = pre ++ trim s ++ post /\
    forallb isWhiteSpace pre = true /\ forallb isWhiteSpace post = true /\
    (forall c, head (trim s) = Some c -> isWhiteSpace c = false) /\
    (forall c, last (trim s) = Some c -> isWhiteSpace c = false).
Proof.
  destruct (trimStart_split s) as (pre & Hs & Hpre).
  destruct (trimStart_split (reverse (trimStart s))) as (tsop & Hr & Hpost).
  exists pre, (reverse tsop).
  assert (trimStart s = trim s ++ reverse tsop) as Hmid.
  { unfold trim, trimEnd. rewrite <- reverse_app, <- Hr. by rewrite reverse_involutive. }
  split_and!.
  - by rewrite <- Hmid.
  - done.
  - rewrite forallb_forall in Hpost |- *. intros c Hc. apply Hpost.
    apply list_elem_of_In. apply list_elem_of_In in Hc. by rewrite elem_of_reverse in Hc.
  - intros c Hc. destruct (trim s) as [|d t] eqn:Et; [done|].
    injection Hc as ->.
    destruct (trimStart s) as [|e u] eqn:Eu; [done|].
    injection Hmid as -> _. by apply trimStart_head in Eu.
  - intros c Hc. unfold trim, trimEnd in Hc.
    rewrite last_reverse in Hc.
    destruct (trimStart (reverse (trimStart s))) as [|d t] eqn:Et; [done|].
    injection Hc as ->. by apply trimStart_head in Et.
Qed.

(** ** Validation *)

(** Every error [validateItem] throws is answered with status 400 and the
    error's own message. *)
Lemma validate_details (sch : Joi.ObjectSchema) (body : reqBody)
    (details : list Joi.code) :
  Joi.validate sch body = inl details -> exists c, details = [c].
Proof.
  unfold Joi.validate. repeat case_match; try done; intros [= <-]; eauto.
Qed.

Lemma validateItem_error (Joi : bool) (body : reqBody) (e : Error) :
  validateItem Joi body = inl e ->
  errorHandler e = status_json 400 (error_ (err_message e)).
Proof.
  unfold validateItem. destruct (itemSchema Joi) as [schema|].
  - destruct (Joi.validate schema body) as [details|value] eqn:Hv; [|done].
    apply validate_details in Hv as [c ->]. by intros [= <-].
  - repeat case_match; try done; by intros [= <-].
Qed.

Lemma valid_inr (Joi : bool) (body : reqBody) :
  valid Joi body = true <-> exists v, validateItem Joi body = inr v.
Proof.
  unfold valid. destruct (validateItem Joi body) as [e|v]; split; try done.
  - by intros [v [=]].
  - by exists v.
Qed.

(** ** The routes, one request at a time *)

Ltac run_handler :=
  unfold serve, route, get_me, get_items_route, post_items, put_items,
    delete_items, not_found, mbind, mret, handler_bind, handler_ret, bind, ret,
    call, get_items, set_items; simpl.

Lemma serve_get_items (Joi : bool) (now : Z) (st : Store) :
  serve Joi now GET_items st = (json_ (data_ (items st)), st).
Proof. by run_handler. Qed.

Lemma serve_unmatched (Joi : bool) (now : Z) (path : jsstring) (st : Store) :
  (serve Joi now (unmatched path) st).2 = st.
Proof. by run_handler. Qed.

Lemma serve_get_me (Joi : bool) (now : Z) (headers : Headers) (st : Store) :
  serve Joi now (GET_me headers) st =
    (match authStub headers with
     | inr user => json_ (user_ user)
     | inl err => errorHandler err
     end, st).
Proof. run_handler. by destruct (authStub headers). Qed.

Lemma serve_post_items (Joi : bool) (now : Z) (body : reqBody) (st : Store) :
  serve Joi now (POST_items body) st =
    match validateItem Joi body with
    | inr validated =>
        let item := spread_new (String_ now) validated in
        (status_json 201 (item_ item), mkStore (items st ++ [item]))
    | inl err => (errorHandler err, st)
    end.
Proof. run_handler. by destruct (validateItem Joi body). Qed.

Lemma serve_put_items (Joi : bool) (now : Z) (i : jsstring) (body : reqBody)
    (st : Store) :
  serve Joi now (PUT_items i body) st =
    match validateItem Joi body with
    | inr validated =>
        match list_find (fun x => id x = i) (items st) with
        | Some (idx, old) =>
            let item := spread_over old validated in
            (json_ (item_ item), mkStore (<[idx := item]> (items st)))
        | None => (status_json 404 (error_ (Text (lit "not_found"))), st)
        end
    | inl err => (errorHandler err, st)
    end.
Proof.
  run_handler. destruct (validateItem Joi body); [done|].
  by destruct (list_find _ _) as [[idx old]|].
Qed.

Lemma serve_delete_items (Joi : bool) (now : Z) (i : jsstring) (st : Store) :
  serve Joi now (DELETE_items i) st =
    let l := filter (fun x => id x ≠ i) (items st) in
    (json_ (removed_ (negb (length (items st) =? length l)%nat)), mkStore l).
Proof. by run_handler. Qed.

(** ** Lists of items *)

Lemma id_spread_over (item : Item) (validated : option Validated) :
  id (spread_over item validated) = id item.
Proof. by destruct validated. Qed.

(** Writing an item with the same id at a position keeps the list of ids. *)
Lemma ids_insert (l : list Item) (idx : nat) (old new : Item) :
  l !! idx = Some old -> id new = id old -> id <$> <[idx := new]> l = id <$> l.
Proof.
  intros Hold Hid. rewrite list_fmap_insert, Hid.
  apply list_insert_id. by rewrite list_lookup_fmap, Hold.
Qed.

Lemma ids_filter (i : jsstring) (l : list Item) :
  id <$> filter (fun x => id x ≠ i) l = filter (fun j => j ≠ i) (id <$> l).
Proof.
  induction l as [|x l IH]; [done|].
  rewrite fmap_cons, !filter_cons. case_decide; csimpl; by rewrite IH.
Qed.

(** The items a DELETE keeps and the items it drops make up the list. *)
Lemma length_filter_split (i : jsstring) (l : list Item) :
  (length (filter (fun x => id x ≠ i) l) + length (filter (fun x => id x = i) l)
   = length l)%nat.
Proof.
  induction l as [|x l IH]; [done|].
  rewrite !filter_cons. destruct (decide (id x = i)); simpl.
  - rewrite decide_False by tauto. simpl. lia.
  - rewrite decide_True by done. simpl. lia.
Qed.

(** With unique ids a DELETE drops one item if the id occurs, none if not. *)
Lemma length_filter_NoDup (i : jsstring) (l : list Item) :
  NoDup (id <$> l) ->
  length (filter (fun x => id x = i) l) = if bool_decide (i ∈ id <$> l) then 1%nat else 0%nat.
Proof.
  induction l as [|x l IH]; [done|].
  rewrite fmap_cons, NoDup_cons. intros [Hx Hl].
  rewrite filter_cons. specialize (IH Hl).
  destruct (decide (id x = i)) as [<-|Hne]; simpl.
  - rewrite bool_decide_true by set_solver.
    rewrite bool_decide_false in IH by done. by rewrite IH.
  - rewrite IH. rewrite (bool_decide_ext (i ∈ id x :: (id <$> l)) (i ∈ id <$> l)); [done|].
    rewrite elem_of_cons. split; [intros [->|Hi]|intros Hi]; [done|done|by right].
Qed.

(** ** Runs *)

Lemma run_cons (Joi : bool) (now : Z) (req : Request) (reqs : list (Z * Request))
    (st : Store) :
  run Joi ((now, req) :: reqs) st =
    ((serve Joi now req st).1 :: (run Joi reqs (serve Joi now req st).2).1,
     (run Joi reqs (serve Joi now req st).2).2).
Proof.
  cbn [run]. destruct (serve Joi now req st) as [res st'].
  cbn [fst snd]. by destruct (run Joi reqs st') as [ress st''].
Qed.

Lemma transcript_cons (Joi : bool) (now : Z) (req : Request)
    (reqs : list (Z * Request)) (st : Store) :
  transcript Joi ((now, req) :: reqs) st =
    (req, (serve Joi now req st).1) :: transcript Joi reqs (serve Joi now req st).2.
Proof. unfold transcript. by rewrite run_cons. Qed.

Lemma created_at_app (Joi : bool) (pre post : list (Z * Request)) :
  created_at Joi (pre ++ post) = created_at Joi pre ++ created_at Joi post.
Proof.
  induction pre as [|[now req] pre IH]; [done|].
  simpl. destruct req; try done. destruct (valid Joi body); [|done].
  by rewrite IH.
Qed.

(** What one request does to the list of ids. *)
Lemma ids_serve (Joi : bool) (now : Z) (req : Request) (st : Store) :
  ids (serve Joi now req st).2 =
    match req with
    | POST_items body => if valid Joi body then ids st ++ [String_ now] else ids st
    | DELETE_items i => filter (fun j => j ≠ i) (ids st)
    | _ => ids st
    end.
Proof.
  destruct req as [headers| |body|i body|i|path].
  - by rewrite serve_get_me.
  - by rewrite serve_get_items.
  - rewrite serve_post_items. unfold valid, ids.
    destruct (validateItem Joi body) as [e|v]; [done|].
    simpl. rewrite fmap_app. by destruct v.
  - rewrite serve_put_items. unfold ids.
    destruct (validateItem Joi body) as [e|v]; [done|].
    destruct (list_find _ _) as [[idx old]|] eqn:Hfind; [|done].
    apply list_find_Some in Hfind as (Hold & _ & _).
    simpl. apply (ids_insert _ _ old); [done|]. apply id_spread_over.
  - rewrite serve_delete_items. unfold ids. simpl. apply ids_filter.
  - by rewrite serve_unmatched.
Qed.

(** One request later, the ids ever inserted are still among those counted
    from the start, in the same order. *)
Lemma inserted_step (Joi : bool) (now : Z) (req : Request)
    (reqs : list (Z * Request)) (st : Store) :
  inserted Joi reqs (serve Joi now req st).2
    `sublist_of` inserted Joi ((now, req) :: reqs) st.
Proof.
  unfold inserted. rewrite ids_serve.
  destruct req as [headers| |body|i body|i|path]; simpl; try done.
  - destruct (valid Joi body); [|done].
    by rewrite fmap_cons, <- app_assoc.
  - apply sublist_app; [|done]. apply sublist_filter.
Qed.

(** The items of the store are among the items ever inserted, in insertion
    order. *)
Lemma run_sublist (Joi : bool) (reqs : list (Z * Request)) (st : Store) :
  ids (run Joi reqs st).2 `sublist_of` inserted Joi reqs st.
Proof.
  revert st. induction reqs as [|[now req] reqs IH]; intros st.
  - unfold inserted. simpl. by rewrite app_nil_r.
  - rewrite run_cons. simpl. etrans; [apply IH|]. apply inserted_step.
Qed.

(** An append is counted exactly when the body passes validation. *)
Lemma is_append_serve (Joi : bool) (now : Z) (body : reqBody) (st : Store) :
  is_append (POST_items body, (serve Joi now (POST_items body) st).1) = valid Joi body.
Proof.
  unfold is_append, valid. rewrite serve_post_items. simpl.
  destruct (validateItem Joi body) as [e|v] eqn:E; [|done].
  by rewrite (validateItem_error _ _ _ E).
Qed.

(** Appends and removals account for the length of the store. *)
Lemma run_length (Joi : bool) (reqs : list (Z * Request)) (st : Store) :
  (length (items (run Joi reqs st).2) + removals Joi reqs st
   = length (items st) + appends (transcript Joi reqs st))%nat.
Proof.
  revert st. induction reqs as [|[now req] reqs IH]; intros st.
  - simpl. unfold appends. simpl. lia.
  - rewrite run_cons, transcript_cons. cbn [removals snd].
    specialize (IH (serve Joi now req st).2).
    unfold appends in *. cbn [List.filter].
    destruct req as [headers| |body|i body|i|path].
    + rewrite serve_get_me in *. simpl in *. lia.
    + rewrite serve_get_items in *. simpl in *. lia.
    + rewrite is_append_serve.
      assert (length (items (serve Joi now (POST_items body) st).2)
              = length (items st) + (if valid Joi body then 1 else 0))%nat as Hlen.
      { rewrite serve_post_items. unfold valid.
        destruct (validateItem Joi body); simpl; [lia|].
        rewrite length_app. simpl. lia. }
      destruct (valid Joi body); simpl; lia.
    + assert (length (items (serve Joi now (PUT_items i body) st).2)
              = length (items st)) as Hlen.
      { rewrite serve_put_items. destruct (validateItem Joi body); [done|].
        destruct (list_find _ _) as [[idx old]|]; [|done].
        simpl. apply length_insert. }
      replace (is_append _) with false by done. lia.
    + replace (is_append _) with false by done.
      pose proof (length_filter_split i (items st)) as Hsplit.
      rewrite serve_delete_items in *. simpl in *. lia.
    + replace (is_append _) with false by done.
      rewrite serve_unmatched in *. lia.
Qed.

(** A DELETE reports a removal exactly when an item carries the id. *)
Lemma removed_iff (i : jsstring) (l : list Item) :
  negb (length l =? length (filter (fun x => id x ≠ i) l))%nat
  = bool_decide (i ∈ id <$> l).
Proof.
  pose proof (length_filter_split i l) as Hsplit.
  destruct (decide (i ∈ id <$> l)) as [Hin|Hnin].
  - rewrite bool_decide_true by done.
    apply list_elem_of_fmap in Hin as (x & -> & Hx).
    assert (x ∈ filter (fun y => id y = id x) l) as Hf by by apply list_elem_of_filter.
    destruct (filter (fun y => id y = id x) l) as [|y k]; [by apply elem_of_nil in Hf|].
    simpl in Hsplit. apply negb_true_iff, Nat.eqb_neq. lia.
  - rewrite bool_decide_false by done.
    destruct (filter (fun y => id y = i) l) as [|y k] eqn:Hf.
    + simpl in Hsplit. apply negb_false_iff, Nat.eqb_eq. lia.
    + exfalso. assert (y ∈ filter (fun y => id y = i) l) as Hy by (rewrite Hf; left).
      apply list_elem_of_filter in Hy as [<- Hy].
      apply Hnin, list_elem_of_fmap. by exists y.
Qed.

Lemma is_delete_serve (Joi : bool) (now : Z) (i : jsstring) (st : Store) :
  is_delete (DELETE_items i, (serve Joi now (DELETE_items i) st).1)
  = bool_decide (i ∈ ids st).
Proof.
  rewrite serve_delete_items. unfold is_delete, ids. simpl.
  rewrite removed_iff. by destruct (bool_decide _).
Qed.

(** While ids are unique, each successful delete removes one item and each
    other delete none. *)
Lemma run_deletes (Joi : bool) (reqs : list (Z * Request)) (st : Store) :
  NoDup (inserted Joi reqs st) ->
  deletes (transcript Joi reqs st) = removals Joi reqs st.
Proof.
  revert st. induction reqs as [|[now req] reqs IH]; intros st Hnd; [done|].
  rewrite transcript_cons. cbn [removals].
  unfold deletes in *. cbn [List.filter].
  rewrite <- IH by (eapply sublist_NoDup; [done|apply inserted_step]).
  destruct req as [headers| |body|i body|i|path]; try done.
  rewrite is_delete_serve.
  apply NoDup_app in Hnd as (Hids & _ & _).
  rewrite (length_filter_NoDup i (items st) Hids). fold (ids st).
  by destruct (bool_decide _).
Qed.

Lemma String_Inj : Inj (=) (=) String_.
Proof. intros m n. apply String_inj. Qed.

(** Under a fresh clock no id is ever handed out twice. *)
Lemma fresh_clock_NoDup (Joi : bool) (reqs : list (Z * Request)) :
  fresh_clock Joi reqs -> NoDup (inserted Joi reqs store).
Proof.
  intros (Hnd & H1 & H2). unfold inserted. rewrite ids_store.
  change (NoDup (String_ <$> 1 :: 2 :: created_at Joi reqs)).
  apply (@NoDup_fmap_2 _ _ String_ String_Inj). rewrite !NoDup_cons, elem_of_cons.
  split_and!; [|done..]. by intros [[=]|?].
Qed.

Lemma fresh_clock_app_l (Joi : bool) (pre post : list (Z * Request)) :
  fresh_clock Joi (pre ++ post) -> fresh_clock Joi pre.
Proof.
  unfold fresh_clock. rewrite created_at_app, NoDup_app, !elem_of_app.
  intros ((Hnd & _) & H1 & H2). split_and!; [done|tauto..].
Qed.

(** ** The claims about ids *)

(** C1, as stated, fails: two appends served at the same clock reading are
    both answered 201 and get the same id, so the store that this run
    reaches holds two items with one id. *)
Lemma same_instant_same_id :
  res_status <$> (run false burst store).1 = [201; 201] /\
  reachable false (run false burst store).2 /\
  ids (run false burst store).2 = [lit "1"; lit "2"; String_ t0; String_ t0] /\
  ~ NoDup (ids (run false burst store).2).
Proof.
  split_and!.
  - by vm_compute.
  - by exists burst.
  - by vm_compute.
  - apply (bool_decide_eq_false_1 _). by vm_compute.
Qed.

(** C1, amended: along every run from the initial state in which the clock
    shows pairwise different instants, none of them 1 or 2, to the POST
    requests with a valid body, the ids in the store are unique in every
    state the run passes through, and each POST with a valid body is
    answered 201 with an item that is appended to the store and whose id,
    the decimal form of the clock reading, is borne by no item inserted
    before it (the seed items and the items of earlier POSTs, deleted or
    not). *)
Theorem ids_unique_under_fresh_clock (Joi : bool) (reqs : list (Z * Request)) :
  fresh_clock Joi reqs ->
  (forall pre post, reqs = pre ++ post -> NoDup (ids (run Joi pre store).2)) /\
  (forall pre now body post,
     reqs = pre ++ (now, POST_items body) :: post ->
     valid Joi body = true ->
     let st := (run Joi pre store).2 in
     exists item,
       serve Joi now (POST_items body) st
         = (status_json 201 (item_ item), mkStore (items st ++ [item])) /\
       id item = String_ now /\
       id item ∉ inserted Joi pre store).
Proof.
  intros Hfresh. split.
  - intros pre post ->. apply fresh_clock_app_l in Hfresh.
    eapply sublist_NoDup; [by apply fresh_clock_NoDup|apply run_sublist].
  - intros pre now body post -> Hvalid st.
    apply valid_inr in Hvalid as Hv. destruct Hv as [v Hv].
    exists (spread_new (String_ now) v). split_and!.
    + by rewrite serve_post_items, Hv.
    + by destruct v.
    + replace (id (spread_new (String_ now) v)) with (String_ now) by by destruct v.
      apply fresh_clock_NoDup in Hfresh. unfold inserted in *.
      rewrite created_at_app in Hfresh. cbn [created_at] in Hfresh. rewrite Hvalid in Hfresh.
      rewrite fmap_app, fmap_cons, app_assoc in Hfresh.
      apply NoDup_app in Hfresh as (_ & Hdisj & _).
      intros Hin. apply (Hdisj _ Hin). left.
Qed.

Lemma ids_unique_under_fresh_clock_witness :
  fresh_clock true session /\ NoDup (ids (run true session store).2).
Proof.
  assert (fresh_clock true session) as Hfresh.
  { unfold fresh_clock. split_and!; apply (bool_decide_eq_true_1 _); by vm_compute. }
  split; [done|].
  apply (proj1 (ids_unique_under_fresh_clock true session Hfresh) session []).
  by rewrite app_nil_r.
Defined.

(** ** The claims about the contents of the store *)

(** C9: the store of a freshly started server holds the two seed items, the
    first GET /items returns them, and along every run the length of the
    store is the two seed items plus the successful appends minus the items
    taken out by DELETE requests. *)
Theorem seed_items :
  items store = [ mkItem (lit "1") (Some (lit "First")) (Some false);
                  mkItem (lit "2") (Some (lit "Second")) (Some true) ] /\
  (forall Joi now,
     serve Joi now GET_items store
       = (json_ (data_ [ mkItem (lit "1") (Some (lit "First")) (Some false);
                         mkItem (lit "2") (Some (lit "Second")) (Some true) ]),
          store)) /\
  (forall Joi reqs,
     (length (items (run Joi reqs store).2) + removals Joi reqs store
      = 2 + appends (transcript Joi reqs store))%nat).
Proof.
  split_and!; [done|..].
  - intros Joi now. by rewrite serve_get_items.
  - intros Joi reqs. by rewrite run_length.
Qed.

(** C6, as stated, fails: after one successful append and no delete on a
    fresh server, GET /items returns three items, not one. *)
Lemma one_append_three_items :
  appends (transcript false one_append store) = 1%nat /\
  deletes (transcript false one_append store) = 0%nat /\
  exists l,
    (serve false (t0 + 1) GET_items (run false one_append store).2).1
      = json_ (data_ l) /\
    length l = 3%nat /\
    length l <> (appends (transcript false one_append store)
                 - deletes (transcript false one_append store))%nat.
Proof.
  split_and!; [by vm_compute..|].
  eexists. split_and!; [by rewrite serve_get_items|by vm_compute|by vm_compute].
Qed.

(** C6, amended: along every run from the initial state in which the clock
    shows pairwise different instants, none of them 1 or 2, to the POST
    requests with a valid body, with N successful appends and M successful
    deletes, GET /items returns exactly 2 + N - M items; their ids are
    pairwise different and appear in the order in which the items were
    inserted. *)
Theorem get_items_after_appends_and_deletes (Joi : bool)
    (reqs : list (Z * Request)) (now : Z) :
  fresh_clock Joi reqs ->
  let log := transcript Joi reqs store in
  exists l,
    (serve Joi now GET_items (run Joi reqs store).2).1 = json_ (data_ l) /\
    (deletes log <= 2 + appends log)%nat /\
    length l = (2 + appends log - deletes log)%nat /\
    NoDup (inserted Joi reqs store) /\
    id <$> l `sublist_of` inserted Joi reqs store.
Proof.
  intros Hfresh%fresh_clock_NoDup log.
  exists (items (run Joi reqs store).2).
  pose proof (run_length Joi reqs store) as Hlen.
  rewrite <- (run_deletes _ _ _ Hfresh) in Hlen. fold log in Hlen.
  change (length (items store)) with 2%nat in Hlen.
  split_and!; [by rewrite serve_get_items|lia|lia|done|apply run_sublist].
Qed.

Lemma get_items_after_appends_and_deletes_witness :
  fresh_clock true session /\
  exists l,
    (serve true (t0 + 6) GET_items (run true session store).2).1 = json_ (data_ l) /\
    length l = 3%nat.
Proof.
  assert (fresh_clock true session) as Hfresh.
  { unfold fresh_clock. split_and!; apply (bool_decide_eq_true_1 _); by vm_compute. }
  split; [done|].
  destruct (get_items_after_appends_and_deletes true session (t0 + 6) Hfresh)
    as (l & Hget & _ & Hlen & _).
  exists l. split; [done|]. rewrite Hlen. by vm_compute.
Defined.

(** C5: DELETE /items/:id always answers 200 with [removed] telling whether
    some item carried the id, and leaves exactly the items with another id;
    when the id occurs exactly once, the first DELETE answers
    [{removed: true}] and takes one item out, and a second DELETE right
    after it answers [{removed: false}] and changes nothing. *)
Theorem delete_twice (Joi : bool) (now now' : Z) (i : jsstring) (st : Store) :
  length (filter (fun x => id x = i) (items st)) = 1%nat ->
  let first := serve Joi now (DELETE_items i) st in
  let second := serve Joi now' (DELETE_items i) first.2 in
  first.1 = json_ (removed_ true) /\
  second.1 = json_ (removed_ false) /\
  items first.2 = filter (fun x => id x ≠ i) (items st) /\
  (length (items first.2) + 1 = length (items st))%nat /\
  (i ∉ ids first.2) /\
  second.2 = first.2 /\
  (forall st' j,
     (serve Joi now (DELETE_items j) st').1 = json_ (removed_ (bool_decide (j ∈ ids st'))) /\
     items (serve Joi now (DELETE_items j) st').2 = filter (fun x => id x ≠ j) (items st')).
Proof.
  intros Honce. cbv zeta.
  assert (forall st' j n,
     serve Joi n (DELETE_items j) st'
       = (json_ (removed_ (bool_decide (j ∈ ids st'))),
          mkStore (filter (fun x => id x ≠ j) (items st')))) as Hserve.
  { intros st' j n. rewrite serve_delete_items. simpl. by rewrite removed_iff. }
  assert (i ∈ ids st) as Hin.
  { destruct (filter (fun x => id x = i) (items st)) as [|x k] eqn:Hf; [done|].
    assert (x ∈ filter (fun x => id x = i) (items st)) as Hx by (rewrite Hf; left).
    apply list_elem_of_filter in Hx as [<- Hx]. by apply list_elem_of_fmap_2. }
  assert (i ∉ ids (serve Joi now (DELETE_items i) st).2) as Hout.
  { rewrite ids_serve. rewrite list_elem_of_filter. tauto. }
  pose proof (length_filter_split i (items st)) as Hsplit.
  rewrite (Hserve (serve Joi now (DELETE_items i) st).2), bool_decide_false by done.
  rewrite (Hserve st) in *. rewrite bool_decide_true by done.
  cbn [fst snd items] in *. split_and!; try done.
  - lia.
  - f_equal. apply list_filter_filter_l. intros x Hx. exact Hx.
  - intros st' j. by rewrite Hserve.
Qed.

Lemma delete_twice_witness :
  (serve true t0 (DELETE_items (lit "2")) store).1 = json_ (removed_ true) /\
  (serve true (t0 + 1) (DELETE_items (lit "2"))
     (serve true t0 (DELETE_items (lit "2")) store).2).1 = json_ (removed_ false).
Proof.
  assert (length (filter (fun x => id x = lit "2") (items store)) = 1%nat) as Honce
    by by vm_compute.
  destruct (delete_twice true t0 (t0 + 1) (lit "2") store Honce) as (H1 & H2 & _).
  by split.
Defined.

(** ** The claims about PUT /items/:id *)

Lemma find_id_None (i : jsstring) (l : list Item) :
  list_find (fun x => id x = i) l = None <-> i ∉ id <$> l.
Proof.
  rewrite list_find_None, Forall_forall. split.
  - intros Hall (x & -> & Hx)%list_elem_of_fmap. by apply (Hall x).
  - intros Hnin x Hx <-. apply Hnin, list_elem_of_fmap. by exists x.
Qed.

(** C10: PUT /items/:id validates the body before it looks the id up. The
    status is 400 whenever validation fails, whether or not the id is in
    the store; with a valid body it is 404 when the id is unknown and 200
    when it is known. *)
Theorem put_validates_first (Joi : bool) (now : Z) (i : jsstring)
    (body : reqBody) (st : Store) :
  res_status (serve Joi now (PUT_items i body) st).1
  = if valid Joi body
    then if bool_decide (i ∈ ids st) then 200 else 404
    else 400.
Proof.
  rewrite serve_put_items. unfold valid.
  destruct (validateItem Joi body) as [e|v] eqn:Hv.
  - by rewrite (validateItem_error _ _ _ Hv).
  - destruct (list_find _ _) as [[idx old]|] eqn:Hfind.
    + rewrite bool_decide_true; [done|].
      destruct (decide (i ∈ ids st)) as [|Hnin]; [done|].
      apply find_id_None in Hnin. congruence.
    + apply find_id_None in Hfind. by rewrite bool_decide_false.
Qed.

(** C2, as stated, fails: with an id that is not in the store and a body
    that fails validation, PUT answers 400, not 404, on either validation
    path. *)
Lemma unknown_id_invalid_body_400 :
  (lit "9" ∉ ids store) /\
  res_status (serve true t0 (PUT_items (lit "9") empty_object) store).1 = 400 /\
  res_status (serve false t0 (PUT_items (lit "9") empty_object) store).1 = 400.
Proof.
  split_and!; [|by vm_compute..].
  apply (bool_decide_eq_true_1 _). by vm_compute.
Qed.

(** C2, amended: for every id not present in the store, PUT /items/:id
    leaves the store as it was for every request body, and answers 404
    with [{error: 'not_found'}] for every body that passes validation (400
    for the others). *)
Theorem put_unknown_id (Joi : bool) (now : Z) (i : jsstring) (body : reqBody)
    (st : Store) :
  i ∉ ids st ->
  (serve Joi now (PUT_items i body) st).2 = st /\
  (serve Joi now (PUT_items i body) st).1
    = match validateItem Joi body with
      | inr _ => status_json 404 (error_ (Text (lit "not_found")))
      | inl err => status_json 400 (error_ (err_message err))
      end.
Proof.
  intros Hnin. rewrite serve_put_items.
  apply find_id_None in Hnin as Hfind. unfold ids in Hfind.
  destruct (validateItem Joi body) as [e|v] eqn:Hv.
  - by rewrite (validateItem_error _ _ _ Hv).
  - by rewrite Hfind.
Qed.

Lemma put_unknown_id_witness :
  (serve true t0 (PUT_items (lit "9") third) store).2 = store /\
  res_status (serve true t0 (PUT_items (lit "9") third) store).1 = 404.
Proof.
  assert (lit "9" ∉ ids store) as Hnin
    by (apply (bool_decide_eq_true_1 _); by vm_compute).
  destruct (put_unknown_id true t0 (lit "9") third store Hnin) as (Hst & Hres).
  split; [done|]. rewrite Hres. by vm_compute.
Defined.

(** C7, as stated, fails: after two appends within one millisecond the
    store holds two items with the same id; PUT on that id rewrites the
    first of them, so the second one, although present, keeps its fields
    while another item changes. *)
Lemma put_on_duplicate_id :
  let st := (run false burst store).2 in
  let item := mkItem (String_ t0) (Some (lit "Fourth")) (Some false) in
  let st' := (serve false (t0 + 1) (PUT_items (id item) fifth) st).2 in
  reachable false st /\
  items st !! 3%nat = Some item /\
  valid false fifth = true /\
  items st' !! 3%nat = Some item /\
  items st !! 2%nat = Some (mkItem (String_ t0) (Some (lit "Third")) (Some false)) /\
  items st' !! 2%nat = Some (mkItem (String_ t0) (Some (lit "Fifth")) (Some true)).
Proof.
  cbv zeta. split_and!; [by exists burst|by vm_compute..].
Qed.

(** C7, amended: for the first item of the store that carries an id (the
    only one whenever ids are unique) and every request body that passes
    validation, PUT /items/:id on that id answers 200 with the item spread
    over by the validated value; the new item has the same id, stands at
    the same position, and every other position of the store is unchanged. *)
Theorem put_overwrites_in_place (Joi : bool) (now : Z) (st : Store) (idx : nat)
    (item : Item) (body : reqBody) (validated : option Validated) :
  items st !! idx = Some item ->
  (forall j x, (j < idx)%nat -> items st !! j = Some x -> id x ≠ id item) ->
  validateItem Joi body = inr validated ->
  let item' := spread_over item validated in
  let st' := (serve Joi now (PUT_items (id item) body) st).2 in
  (serve Joi now (PUT_items (id item) body) st).1 = json_ (item_ item') /\
  id item' = id item /\
  name item' = from_option (fun v => from_option Some (name item) (v_name v))
                 (name item) validated /\
  done item' = from_option (fun v => from_option Some (done item) (v_done v))
                 (done item) validated /\
  items st' !! idx = Some item' /\
  length (items st') = length (items st) /\
  (forall j, j ≠ idx -> items st' !! j = items st !! j).
Proof.
  intros Hidx Hfirst Hv. cbv zeta. rewrite serve_put_items, Hv.
  assert (list_find (fun x => id x = id item) (items st) = Some (idx, item)) as ->.
  { apply list_find_Some. split_and!; [done..|].
    intros j x Hx Hj. by apply (Hfirst j x). }
  cbn [fst snd items]. split_and!.
  - done.
  - apply id_spread_over.
  - destruct validated as [[[n|] d]|]; done.
  - destruct validated as [[n [d|]]|]; done.
  - apply list_lookup_insert_eq. by eapply lookup_lt_Some.
  - apply length_insert.
  - intros j Hj. by apply list_lookup_insert_ne.
Qed.

Lemma put_overwrites_in_place_witness :
  (serve true t0 (PUT_items (lit "2") fifth) store).1
    = json_ (item_ (mkItem (lit "2") (Some (lit "Fifth")) (Some true))) /\
  items (serve true t0 (PUT_items (lit "2") fifth) store).2 !! 0%nat
    = items store !! 0%nat.
Proof.
  assert (items store !! 1%nat = Some (mkItem (lit "2") (Some (lit "Second")) (Some true)))
    as Hidx by reflexivity.
  assert (forall j x, (j < 1)%nat -> items store !! j = Some x ->
            id x ≠ id (mkItem (lit "2") (Some (lit "Second")) (Some true))) as Hfirst.
  { intros j x Hj. destruct j as [|j]; [|lia]. by intros [= <-]. }
  assert (validateItem true fifth
          = inr (Some (mkValidated (Some (lit "Fifth")) (Some true)))) as Hv
    by by vm_compute.
  destruct (put_overwrites_in_place true t0 store 1 _ fifth _ Hidx Hfirst Hv)
    as (Hres & _ & _ & _ & _ & _ & Hother).
  split; [exact Hres|]. by apply Hother.
Defined.

(** ** The claims about validation *)

(** On the fallback path a name of white space only is refused, and the
    store stays as it was. *)
Lemma post_blank_name_fallback (now : Z) (props : gmap jsstring json)
    (n : jsstring) (st : Store) :
  props !! lit "name" = Some (JStr n) ->
  forallb isWhiteSpace n = true ->
  serve false now (POST_items (BodyObject props)) st
    = (status_json 400 (error_ (Text (lit "name is required"))), st).
Proof.
  intros Hname Hws%trim_nil_iff. rewrite serve_post_items.
  unfold validateItem. simpl. rewrite Hname, Hws. by rewrite bool_decide_true.
Qed.

(** On either path the empty name is refused, and the store stays as it
    was. *)
Lemma post_empty_name (Joi : bool) (now : Z) (props : gmap jsstring json)
    (st : Store) :
  props !! lit "name" = Some (JStr []) ->
  res_status (serve Joi now (POST_items (BodyObject props)) st).1 = 400 /\
  (serve Joi now (POST_items (BodyObject props)) st).2 = st.
Proof.
  intros Hname. destruct Joi.
  - rewrite serve_post_items. unfold validateItem. simpl. by rewrite Hname.
  - by rewrite (post_blank_name_fallback now props [] st).
Qed.

(** C3, on the code: with Joi loaded, POST /items with the body
    [{"name": " "}], whose name is one space, is answered 201 and the item
    is appended, where the claim asks for 400 and an unchanged store. The
    fallback path answers 400 to the same body. *)
Theorem post_blank_name_joi :
  forallb isWhiteSpace (lit " ") = true /\
  serve true t0 (POST_items blank) store
    = (status_json 201 (item_ (mkItem (String_ t0) (Some (lit " ")) (Some false))),
       mkStore (items store ++ [mkItem (String_ t0) (Some (lit " ")) (Some false)])) /\
  serve false t0 (POST_items blank) store
    = (status_json 400 (error_ (Text (lit "name is required"))), store).
Proof. split_and!; by vm_compute. Qed.

(** C4, as stated, fails: on the fallback path a name of 121 letters passes
    validation and comes back 121 characters long. *)
Lemma fallback_accepts_long_name :
  validateItem false long_name
    = inr (Some (mkValidated (Some (letters 121)) (Some false))) /\
  trim (letters 121) = letters 121 /\
  (120 < length (letters 121))%nat.
Proof. split_and!; by vm_compute. Qed.

(** C4, amended: when validation of a JSON object succeeds, the object has
    a string [name], the value is a [{name, done}] pair whose name has at
    least one character, and [done] is false whenever the object has no
    [done]; on the fallback path the name is the input name with the
    surrounding white space removed (no upper bound on its length), on the
    Joi path the name has at most 120 characters. *)
Theorem validateItem_normalizes (Joi : bool) (props : gmap jsstring json)
    (validated : option Validated) :
  validateItem Joi (BodyObject props) = inr validated ->
  exists s n d,
    props !! lit "name" = Some (JStr s) /\
    validated = Some (mkValidated (Some n) (Some d)) /\
    (1 <= length n)%nat /\
    (props !! lit "done" = None -> d = false) /\
    (if Joi then (length n <= 120)%nat else n = trim s).
Proof.
  unfold validateItem. destruct Joi; simpl.
  - destruct (props !! lit "name") as [[| | |s| |]|] eqn:Hname; simpl; try done.
    case_bool_decide as Hnil; [done|].
    destruct (_ <? _)%nat eqn:Hmin; [done|].
    destruct (_ <? _)%nat eqn:Hmax in |- *; [done|]. simpl.
    apply Nat.ltb_ge in Hmin, Hmax.
    destruct (Joi.validate_boolean _ _) as [e|[d|]] eqn:Hdone; [done| |].
    + case_bool_decide; [|done]. intros [= <-].
      exists s, s, d. split_and!; try done.
      intros Hnone. rewrite Hnone in Hdone. by injection Hdone as <-.
    + exfalso. unfold Joi.validate_boolean in Hdone.
      repeat case_match; simplify_eq.
  - destruct (props !! lit "name") as [[| | |s| |]|] eqn:Hname; simpl; try done.
    case_bool_decide as Hnil; [done|]. intros [= <-].
    exists s, (trim s), (Boolean (props !! lit "done")). split_and!; try done.
    + destruct (trim s); [done|simpl; lia].
    + by intros ->.
Qed.

Lemma validateItem_normalizes_witness :
  exists s n d,
    ({[ lit "name" := JStr (lit " Third ") ]} : gmap jsstring json) !! lit "name"
      = Some (JStr s) /\
    n = lit "Third" /\ d = false.
Proof.
  assert (validateItem false (BodyObject {[ lit "name" := JStr (lit " Third ") ]})
          = inr (Some (mkValidated (Some (lit "Third")) (Some false)))) as Hv
    by by vm_compute.
  destruct (validateItem_normalizes false _ _ Hv) as (s & n & d & Hs & [= Hn Hd] & _).
  by exists s, n, d.
Defined.

(** ** The claim about GET /me *)

(** C8, as stated, fails: a request that carries the x-demo-token header
    with an empty value is answered 401, not 200. *)
Lemma empty_token_rejected :
  empty_token !! lit "x-demo-token" = Some [] /\
  serve true t0 (GET_me empty_token) store
    = (status_json 401 (error_ (Text (lit "missing token"))), store).
Proof. split; by vm_compute. Qed.

(** C8, amended: GET /me answers 401 with [{error: 'missing token'}] when
    the x-demo-token header is absent or empty; otherwise it answers 200
    with the user [{id: 'user-123', token}] that echoes the header value;
    the store is unchanged in every case. *)
Theorem get_me_token_check (Joi : bool) (now : Z) (headers : Headers) (st : Store) :
  serve Joi now (GET_me headers) st
  = (match headers !! lit "x-demo-token" with
     | Some (c :: tok) => json_ (user_ (mkUser (lit "user-123") (c :: tok)))
     | Some [] | None => status_json 401 (error_ (Text (lit "missing token")))
     end, st).
Proof.
  rewrite serve_get_me. unfold authStub.
  by destruct (headers !! lit "x-demo-token") as [[|c tok]|].
Qed.

(** * Further properties of the service *)

(** ** Trimming *)

Lemma trimStart_id (s : jsstring) :
  (forall c, head s = Some c -> isWhiteSpace c = false) -> trimStart s = s.
Proof.
  destruct s as [|c s]; [done|]. intros H. simpl. by rewrite (H c).
Qed.

Lemma trimEnd_id (s : jsstring) :
  (forall c, last s = Some c -> isWhiteSpace c = false) -> trimEnd s = s.
Proof.
  intros H. unfold trimEnd. rewrite trimStart_id.
  - apply reverse_involutive.
  - intros c. rewrite head_reverse. apply H.
Qed.

(** Trimming twice is trimming once. *)
Lemma trim_trim (s : jsstring) : trim (trim s) = trim s.
Proof.
  destruct (trim_split s) as (pre & post & _ & _ & _ & Hhead & Hlast).
  unfold trim at 1. rewrite (trimStart_id _ Hhead). by apply trimEnd_id.
Qed.

(** Trimming only takes characters away. *)
Lemma elem_of_trim (c : N) (s : jsstring) : c ∈ trim s -> c ∈ s.
Proof.
  destruct (trim_split s) as (pre & post & Hs & _). intros Hc.
  rewrite Hs, !elem_of_app. auto.
Qed.

(** ** Validation, path by path *)

Lemma name_ne_done : lit "name" ≠ lit "done".
Proof. by intros [=]. Qed.

Lemma lookup_body_of_name (n : jsstring) (d : bool) :
  ({[ lit "name" := JStr n; lit "done" := JBool d ]} : gmap jsstring json)
    !! lit "name" = Some (JStr n).
Proof. apply lookup_insert_eq. Qed.

Lemma lookup_body_of_done (n : jsstring) (d : bool) :
  ({[ lit "name" := JStr n; lit "done" := JBool d ]} : gmap jsstring json)
    !! lit "done" = Some (JBool d).
Proof.
  rewrite lookup_insert_ne by apply name_ne_done. apply lookup_singleton_eq.
Qed.

(** The object has no key besides [name] and [done]. *)
Lemma only_name_done (props : gmap jsstring json) :
  delete (lit "name") (delete (lit "done") props) = ∅
  <-> forall k, is_Some (props !! k) -> k = lit "name" \/ k = lit "done".
Proof.
  split.
  - intros Hempty k Hk.
    destruct (decide (k = lit "name")) as [|Hn]; [by left|].
    destruct (decide (k = lit "done")) as [|Hd]; [by right|].
    exfalso. apply (f_equal (fun m => m !! k)) in Hempty.
    rewrite !lookup_delete_ne, lookup_empty in Hempty by done.
    rewrite Hempty in Hk. by destruct Hk.
  - intros Hkeys. apply map_empty. intros k.
    destruct (decide (k = lit "name")) as [->|Hn]; [apply lookup_delete_eq|].
    rewrite lookup_delete_ne by done.
    destruct (decide (k = lit "done")) as [->|Hd]; [apply lookup_delete_eq|].
    rewrite lookup_delete_ne by done.
    destruct (props !! k) eqn:Hk; [|done].
    destruct (Hkeys k) as [?|?]; [by rewrite Hk|done..].
Qed.

Lemma body_of_only_name_done (n : jsstring) (d : bool) :
  delete (lit "name") (delete (lit "done")
    ({[ lit "name" := JStr n; lit "done" := JBool d ]} : gmap jsstring json)) = ∅.
Proof.
  apply only_name_done. intros k [v Hk].
  destruct (decide (k = lit "name")) as [|Hn]; [by left|]. right.
  rewrite lookup_insert_ne in Hk by done.
  by apply lookup_singleton_Some in Hk as [-> _].
Qed.

(** What the Joi path returns for an object. *)
Lemma joi_object_value (props : gmap jsstring json) (validated : option Validated) :
  validateItem true (BodyObject props) = inr validated ->
  exists s d,
    props !! lit "name" = Some (JStr s) /\
    validated = Some (mkValidated (Some s) (Some d)) /\
    (1 <= length s <= 120)%nat /\
    Joi.validate_boolean (Joi.default false Joi.boolean) (props !! lit "done")
      = inr (Some d) /\
    delete (lit "name") (delete (lit "done") props) = ∅.
Proof.
  unfold validateItem. simpl.
  destruct (props !! lit "name") as [[| | |s| |]|] eqn:Hname; simpl; try done.
  case_bool_decide as Hnil; [done|].
  destruct (_ <? _)%nat eqn:Hmin; [done|].
  destruct (_ <? _)%nat eqn:Hmax in |- *; [done|]. simpl.
  apply Nat.ltb_ge in Hmin, Hmax.
  destruct (Joi.validate_boolean _ _) as [e|[d|]] eqn:Hdone; [done| |].
  - case_bool_decide as Hkeys; [|done]. intros [= <-].
    exists s, d. split_and!; try done.
  - exfalso. unfold Joi.validate_boolean in Hdone.
    repeat case_match; simplify_eq.
Qed.

(** What the fallback path returns, for any body. *)
Lemma fallback_value (body : reqBody) (validated : option Validated) :
  validateItem false body = inr validated ->
  exists props s,
    body = BodyObject props /\
    props !! lit "name" = Some (JStr s) /\
    trim s ≠ [] /\
    validated = Some (mkValidated (Some (trim s))
                                  (Some (Boolean (props !! lit "done")))).
Proof.
  unfold validateItem. simpl.
  destruct body as [|elems|props]; simpl; try done.
  destruct (props !! lit "name") as [[| | |s| |]|] eqn:Hname; try done.
  case_bool_decide as Hnil; [done|]. intros [= <-].
  by exists props, s.
Qed.

(** X1: a validated [{name, done}] value, sent back as a body, validates
    to itself on the path that produced it. *)
Theorem revalidate_same (Joi : bool) (body : reqBody) (n : jsstring) (d : bool) :
  validateItem Joi body = inr (Some (mkValidated (Some n) (Some d))) ->
  validateItem Joi (body_of n d) = inr (Some (mkValidated (Some n) (Some d))).
Proof.
  destruct Joi.
  - destruct body as [|elems|props]; [done|done|].
    intros (s & d' & _ & [= -> ->] & [Hmin Hmax] & _ & _)%joi_object_value.
    unfold validateItem, body_of. simpl.
    rewrite lookup_body_of_name, lookup_body_of_done. simpl.
    rewrite bool_decide_false by (intros ->; simpl in Hmin; lia).
    apply Nat.ltb_ge in Hmin as ->. apply Nat.ltb_ge in Hmax as ->. simpl.
    by rewrite bool_decide_true by apply body_of_only_name_done.
  - intros (props & s & _ & _ & Hne & [= -> ->])%fallback_value.
    unfold validateItem, body_of. simpl.
    rewrite lookup_body_of_name, lookup_body_of_done, trim_trim.
    rewrite bool_decide_false by done. simpl.
    by destruct (Boolean (props !! lit "done")).
Qed.

Lemma revalidate_same_witness :
  validateItem false (body_of (lit "Third") false)
    = inr (Some (mkValidated (Some (lit "Third")) (Some false))).
Proof.
  apply (revalidate_same false padded). by vm_compute.
Defined.

(** X2: with Joi loaded, a JSON object passes validation exactly when its
    [name] is a string of 1 to 120 code units, its [done] is missing, a
    boolean, or a string that reads true or false in any letter case, and
    it has no other key. *)
Theorem joi_accepts_iff (props : gmap jsstring json) :
  valid true (BodyObject props) = true <->
  (exists s, props !! lit "name" = Some (JStr s) /\ (1 <= length s <= 120)%nat) /\
  (props !! lit "done" = None \/
   (exists b, props !! lit "done" = Some (JBool b)) \/
   (exists s, props !! lit "done" = Some (JStr s) /\
              (Joi.toLowerCase s = lit "true" \/ Joi.toLowerCase s = lit "false"))) /\
  (forall k, is_Some (props !! k) -> k = lit "name" \/ k = lit "done").
Proof.
  rewrite valid_inr. split.
  - intros [v (s & d & Hname & _ & Hlen & Hdone & Hkeys)%joi_object_value].
    split_and!; [by exists s| |by apply only_name_done].
    unfold Joi.validate_boolean in Hdone.
    destruct (props !! lit "done") as [[|b| |t| |]|]; try done; [eauto| |eauto].
    right; right. exists t. split; [done|].
    repeat case_bool_decide; try done; auto.
  - intros ((s & Hname & Hmin & Hmax) & Hdone & Hkeys%only_name_done).
    unfold validateItem. simpl. rewrite Hname. simpl.
    rewrite bool_decide_false by (intros ->; simpl in Hmin; lia).
    apply Nat.ltb_ge in Hmin as ->. apply Nat.ltb_ge in Hmax as ->. simpl.
    rewrite (bool_decide_true _ Hkeys).
    destruct Hdone as [->|[[b ->]|(t & -> & Ht)]]; simpl; [eauto..|].
    destruct Ht as [Ht|Ht]; rewrite Ht; simpl; eauto.
Qed.

(** X3: without Joi, a body passes validation exactly when it is a JSON
    object whose [name] is a string with at least one character that is not
    white space; [done] and all other keys play no part. *)
Theorem fallback_accepts_iff (body : reqBody) :
  valid false body = true <->
  exists props s,
    body = BodyObject props /\
    props !! lit "name" = Some (JStr s) /\
    forallb isWhiteSpace s = false.
Proof.
  rewrite valid_inr. split.
  - intros [v (props & s & -> & Hname & Hne & _)%fallback_value].
    exists props, s. split_and!; [done..|].
    apply not_true_is_false. by rewrite <- trim_nil_iff.
  - intros (props & s & -> & Hname & Hws).
    unfold validateItem. simpl. rewrite Hname.
    rewrite bool_decide_false; [eauto|].
    rewrite trim_nil_iff. by rewrite Hws.
Qed.

(** X4: the two validation paths return the same value for a JSON object
    with no key besides [name] and [done], whose [name] is a string of 1 to
    120 code units without white space at either end and whose [done] is a
    boolean or missing. *)
Theorem paths_agree (props : gmap jsstring json) (n : jsstring) :
  props !! lit "name" = Some (JStr n) ->
  n ≠ [] -> trim n = n -> (length n <= 120)%nat ->
  (props !! lit "done" = None \/ exists b, props !! lit "done" = Some (JBool b)) ->
  (forall k, is_Some (props !! k) -> k = lit "name" \/ k = lit "done") ->
  validateItem true (BodyObject props) = validateItem false (BodyObject props) /\
  valid true (BodyObject props) = true.
Proof.
  intros Hname Hne Htrim Hmax Hdone Hkeys%only_name_done.
  unfold valid, validateItem. simpl. rewrite Hname, Htrim. simpl.
  rewrite !bool_decide_false by done.
  replace (length n <? 1)%nat with false
    by (symmetry; apply Nat.ltb_ge; destruct n; [done|simpl; lia]).
  apply Nat.ltb_ge in Hmax as ->. simpl.
  rewrite (bool_decide_true _ Hkeys).
  by destruct Hdone as [->|[b ->]].
Qed.

Lemma paths_agree_witness :
  validateItem true fifth = validateItem false fifth.
Proof.
  refine (proj1 (paths_agree _ (lit "Fifth") _ _ _ _ _ _)).
  - by vm_compute.
  - done.
  - by vm_compute.
  - simpl. lia.
  - right. exists true. by vm_compute.
  - apply only_name_done, body_of_only_name_done.
Defined.

(** X5: when [done] is a string and both paths accept the object, the
    fallback path always stores [true], while the Joi path stores what the
    string reads: the two differ for every string that reads false. *)
Theorem done_string_by_path (props : gmap jsstring json) (s : jsstring)
    (vj vf : Validated) :
  props !! lit "done" = Some (JStr s) ->
  validateItem true (BodyObject props) = inr (Some vj) ->
  validateItem false (BodyObject props) = inr (Some vf) ->
  v_done vf = Some true /\
  v_done vj = Some (bool_decide (Joi.toLowerCase s = lit "true")) /\
  (Joi.toLowerCase s = lit "false" -> v_done vj ≠ v_done vf).
Proof.
  intros Hdone (n & d & _ & [= ->] & _ & Hd & _)%joi_object_value
    (props' & t & [= <-] & _ & _ & [= ->])%fallback_value.
  rewrite Hdone in *. simpl in *.
  assert (s ≠ []) as Hs by (intros ->; done).
  rewrite (bool_decide_false _ Hs). simpl.
  case_bool_decide as Htrue.
  - injection Hd as <-. split_and!; [done..|]. by rewrite Htrue.
  - case_bool_decide as Hfalse; [|done]. by injection Hd as <-.
Qed.

Lemma done_string_by_path_witness :
  exists vj vf,
    validateItem true done_as_string = inr (Some vj) /\
    validateItem false done_as_string = inr (Some vf) /\
    v_done vj = Some false /\ v_done vf = Some true.
Proof.
  assert (validateItem true done_as_string
          = inr (Some (mkValidated (Some (lit "Third")) (Some false)))) as Hj
    by by vm_compute.
  assert (validateItem false done_as_string
          = inr (Some (mkValidated (Some (lit "Third")) (Some true)))) as Hf
    by by vm_compute.
  assert (({[ lit "name" := JStr (lit "Third"); lit "done" := JStr (lit "False") ]}
             : gmap jsstring json) !! lit "done" = Some (JStr (lit "False"))) as Hdone
    by by vm_compute.
  destruct (done_string_by_path _ (lit "False") _ _ Hdone Hj Hf) as (H1 & H2 & _).
  by eexists _, _.
Defined.

(** X6: a request without a parsed body. Without Joi, POST /items answers
    400 and keeps the store. With Joi the schema lets [undefined] through:
    POST answers 201 and appends an item that has an id but neither name
    nor done, and PUT answers 404 for an unknown id and otherwise 200 with
    the store as it was. *)
Theorem undefined_body (now : Z) (i : jsstring) (st : Store) :
  serve false now (POST_items BodyUndefined) st
    = (status_json 400 (error_ (Text (lit "name is required"))), st) /\
  serve true now (POST_items BodyUndefined) st
    = (status_json 201 (item_ (mkItem (String_ now) None None)),
       mkStore (items st ++ [mkItem (String_ now) None None])) /\
  (serve true now (PUT_items i BodyUndefined) st).2 = st /\
  res_status (serve true now (PUT_items i BodyUndefined) st).1
    = (if bool_decide (i ∈ ids st) then 200 else 404).
Proof.
  split_and!; [by rewrite serve_post_items..| |].
  - rewrite serve_put_items. simpl.
    destruct (list_find _ _) as [[idx old]|] eqn:Hfind; [|done].
    apply list_find_Some in Hfind as (Hold & _). simpl.
    rewrite list_insert_id by done. by destruct st.
  - rewrite serve_put_items. simpl.
    destruct (list_find _ _) as [[idx old]|] eqn:Hfind; simpl.
    + rewrite bool_decide_true; [done|].
      destruct (decide (i ∈ ids st)) as [|Hnin]; [done|].
      apply find_id_None in Hnin. congruence.
    + apply find_id_None in Hfind. by rewrite bool_decide_false.
Qed.

(** ** The routes, beyond the claims *)

(** X7: every route answers only with the status codes of its own row, and
    no request is ever answered 500: the errors that reach the error handler
    all carry a status. *)
Theorem status_by_route (Joi : bool) (now : Z) (req : Request) (st : Store) :
  let s := res_status (serve Joi now req st).1 in
  match req with
  | GET_items | DELETE_items _ => s = 200
  | unmatched _ => s = 404
  | GET_me _ => s = 200 \/ s = 401
  | POST_items _ => s = 201 \/ s = 400
  | PUT_items _ _ => s = 200 \/ s = 400 \/ s = 404
  end.
Proof.
  destruct req as [headers| |body|i body|i|path]; cbv zeta.
  - rewrite serve_get_me. unfold authStub.
    destruct (headers !! _) as [[|c tok]|]; simpl; auto.
  - by rewrite serve_get_items.
  - rewrite serve_post_items.
    destruct (validateItem Joi body) as [e|v] eqn:Hv; [|by left].
    rewrite (validateItem_error _ _ _ Hv). by right.
  - rewrite serve_put_items.
    destruct (validateItem Joi body) as [e|v] eqn:Hv.
    + rewrite (validateItem_error _ _ _ Hv). auto.
    + destruct (list_find _ _) as [[idx old]|]; simpl; auto.
  - by rewrite serve_delete_items.
  - done.
Qed.

(** X8: a request answered with a client error (status 400 or above) leaves
    the store exactly as it was. *)
Theorem error_keeps_store (Joi : bool) (now : Z) (req : Request) (st : Store) :
  400 <= res_status (serve Joi now req st).1 ->
  (serve Joi now req st).2 = st.
Proof.
  destruct req as [headers| |body|i body|i|path].
  - by rewrite serve_get_me.
  - by rewrite serve_get_items.
  - rewrite serve_post_items. destruct (validateItem Joi body); [done|].
    simpl. lia.
  - rewrite serve_put_items. destruct (validateItem Joi body); [done|].
    destruct (list_find _ _) as [[idx old]|]; [|done]. simpl. lia.
  - rewrite serve_delete_items. simpl. lia.
  - by rewrite serve_unmatched.
Qed.

Lemma error_keeps_store_witness :
  (serve true t0 (POST_items empty_object) store).2 = store.
Proof.
  apply (error_keeps_store true t0 (POST_items empty_object) store). by vm_compute.
Defined.

Lemma filter_other_id (i : jsstring) (l : list Item) :
  i ∉ id <$> l -> filter (fun x => id x ≠ i) l = l.
Proof.
  induction l as [|x l IH]; [done|].
  rewrite fmap_cons, not_elem_of_cons. intros [Hx Hl].
  rewrite filter_cons_True by done. by rewrite IH.
Qed.

(** X9: appending and then deleting by the returned id undoes the append.
    When no item of the store carries the decimal form of the clock
    reading, a POST with a valid body followed by a DELETE of the new id
    is answered 201 and then [{removed: true}], and the store is back to
    what it was. *)
Theorem post_then_delete (Joi : bool) (now now' : Z) (body : reqBody) (st : Store) :
  String_ now ∉ ids st ->
  valid Joi body = true ->
  exists item,
    id item = String_ now /\
    run Joi [(now, POST_items body); (now', DELETE_items (id item))] st
      = ([status_json 201 (item_ item); json_ (removed_ true)], st).
Proof.
  intros Hfresh (v & Hv)%valid_inr.
  exists (spread_new (String_ now) v).
  assert (id (spread_new (String_ now) v) = String_ now) as Hid by by destruct v.
  split; [done|].
  rewrite !run_cons. cbn [run fst snd]. rewrite Hid.
  rewrite serve_post_items, Hv. cbn [fst snd].
  rewrite serve_delete_items. cbn [fst snd items].
  rewrite filter_app, (filter_other_id _ _ Hfresh).
  rewrite filter_cons_False by (rewrite Hid; tauto).
  rewrite filter_nil, app_nil_r, length_app. simpl.
  replace (_ =? _)%nat with false by (symmetry; apply Nat.eqb_neq; lia).
  by destruct st.
Qed.

Lemma post_then_delete_witness :
  exists item,
    run true [(t0, POST_items third); (t0 + 1, DELETE_items (id item))] store
      = ([status_json 201 (item_ item); json_ (removed_ true)], store).
Proof.
  assert (String_ t0 ∉ ids store) as Hfresh
    by (apply (bool_decide_eq_true_1 _); by vm_compute).
  assert (valid true third = true) as Hvalid by by vm_compute.
  destruct (post_then_delete true t0 (t0 + 1) third store Hfresh Hvalid)
    as (item & _ & Hrun).
  by exists item.
Defined.

Lemma spread_over_twice (item : Item) (validated : option Validated) :
  spread_over (spread_over item validated) validated = spread_over item validated.
Proof. destruct validated as [[[n|] [d|]]|]; by destruct item. Qed.

Lemma list_find_id_insert (i : jsstring) (l : list Item) (idx : nat) (old new : Item) :
  list_find (fun x => id x = i) l = Some (idx, old) ->
  id new = i ->
  list_find (fun x => id x = i) (<[idx := new]> l) = Some (idx, new).
Proof.
  intros (Hold & _ & Hfirst)%list_find_Some Hnew.
  apply list_find_Some. split_and!; [|done|].
  - apply list_lookup_insert_eq. by eapply lookup_lt_Some.
  - intros j y Hy Hj. rewrite list_lookup_insert_ne in Hy by lia.
    by apply (Hfirst j y).
Qed.

(** X10: PUT /items/:id is idempotent: the same request served a second
    time gets the same response and leaves the store as the first one left
    it, whether the first was answered 200, 400 or 404. *)
Theorem put_twice (Joi : bool) (now now' : Z) (i : jsstring) (body : reqBody)
    (st : Store) :
  serve Joi now' (PUT_items i body) (serve Joi now (PUT_items i body) st).2
  = serve Joi now (PUT_items i body) st.
Proof.
  rewrite (serve_put_items _ now).
  destruct (validateItem Joi body) as [e|v] eqn:Hv.
  - cbn [snd]. by rewrite serve_put_items, Hv.
  - destruct (list_find _ _) as [[idx old]|] eqn:Hfind.
    + cbn [snd]. rewrite serve_put_items, Hv. cbn [items].
      assert (id (spread_over old v) = i) as Hid.
      { rewrite id_spread_over. by apply list_find_Some in Hfind as (_ & ? & _). }
      rewrite (list_find_id_insert _ _ _ _ _ Hfind Hid).
      cbv zeta. by rewrite spread_over_twice, list_insert_insert_eq.
    + cbn [snd]. by rewrite serve_put_items, Hv, Hfind.
Qed.

(** X11: two DELETE requests commute: served in either order they leave
    the same store. *)
Theorem delete_commutes (Joi : bool) (n1 n2 n3 n4 : Z) (i j : jsstring) (st : Store) :
  (run Joi [(n1, DELETE_items i); (n2, DELETE_items j)] st).2
  = (run Joi [(n3, DELETE_items j); (n4, DELETE_items i)] st).2.
Proof.
  rewrite !run_cons. cbn [run snd]. rewrite !serve_delete_items. cbn [snd items].
  f_equal. rewrite !list_filter_filter. apply list_filter_iff. tauto.
Qed.

Lemma elem_of_created_at (Joi : bool) (reqs : list (Z * Request)) (now : Z) :
  now ∈ created_at Joi reqs ->
  exists body, (now, POST_items body) ∈ reqs /\ valid Joi body = true.
Proof.
  induction reqs as [|[n req] reqs IH]; simpl; [by intros ?%elem_of_nil|].
  assert (now ∈ created_at Joi reqs ->
          exists body, (now, POST_items body) ∈ (n, req) :: reqs /\ valid Joi body = true)
    as IH'.
  { intros (body & Hin & Hv)%IH. exists body. split; [by right|done]. }
  destruct req as [headers| |body|i body|i|path]; try done.
  destruct (valid Joi body) eqn:Hv; [|done].
  intros [->|Hin]%elem_of_cons; [|by apply IH'].
  exists body. split; [left|done].
Qed.

(** X12: ids come from the server's clock only. In every store reached
    from the initial one, each id is a seed id or the decimal form of the
    clock reading of a POST request of the run whose body passed
    validation; nothing a client sends becomes an id. *)
Theorem ids_from_clock (Joi : bool) (reqs : list (Z * Request)) (i : jsstring) :
  i ∈ ids (run Joi reqs store).2 ->
  i = lit "1" \/ i = lit "2" \/
  exists now body,
    (now, POST_items body) ∈ reqs /\ valid Joi body = true /\ i = String_ now.
Proof.
  intros Hi. apply (sublist_subseteq _ _ (run_sublist Joi reqs store)) in Hi.
  unfold inserted in Hi. rewrite ids_store in Hi.
  apply elem_of_app in Hi as [Hi|Hi].
  - apply elem_of_cons in Hi as [->|Hi]; [by left|].
    apply list_elem_of_singleton in Hi as ->. by right; left.
  - apply list_elem_of_fmap in Hi as (now & -> & Hnow).
    apply elem_of_created_at in Hnow as (body & Hin & Hv).
    right; right. by exists now, body.
Qed.

Lemma ids_from_clock_witness :
  String_ (t0 + 1) = lit "1" \/ String_ (t0 + 1) = lit "2" \/
  exists now body,
    (now, POST_items body) ∈ session /\ valid true body = true /\
    String_ (t0 + 1) = String_ now.
Proof.
  apply (ids_from_clock true session). apply (bool_decide_eq_true_1 _).
  by vm_compute.
Defined.

(** ** What the store holds, path by path *)

Lemma Forall_serve (P : Item -> Prop) (Joi : bool) (now : Z) (req : Request)
    (st : Store) :
  (forall i v, validateItem Joi (match req with
                                 | POST_items body | PUT_items _ body => body
                                 | _ => BodyUndefined
                                 end) = inr v ->
               P (spread_new i v) /\ forall old, P old -> P (spread_over old v)) ->
  Forall P (items st) -> Forall P (items (serve Joi now req st).2).
Proof.
  intros Hv Hst. destruct req as [headers| |body|i body|i|path].
  - by rewrite serve_get_me.
  - by rewrite serve_get_items.
  - rewrite serve_post_items.
    destruct (validateItem Joi body) as [e|v]; [done|]. simpl.
    apply Forall_app. split; [done|]. apply Forall_singleton.
    by apply (Hv (String_ now) v).
  - rewrite serve_put_items.
    destruct (validateItem Joi body) as [e|v]; [done|].
    destruct (list_find _ _) as [[idx old]|] eqn:Hfind; [|done]. simpl.
    apply Forall_insert; [done|].
    apply list_find_Some in Hfind as (Hold & _).
    apply (Hv i v); [done|].
    rewrite Forall_forall in Hst. apply Hst. by eapply list_elem_of_lookup_2.
  - rewrite serve_delete_items. simpl.
    rewrite Forall_forall in Hst |- *. intros x [_ Hx]%list_elem_of_filter. auto.
  - by rewrite serve_unmatched.
Qed.

(** X13: without Joi, every item of every store reached from the initial
    one has a name that is not empty and has no white space at either end,
    and has a [done]. *)
Theorem fallback_store_trimmed (reqs : list (Z * Request)) :
  Forall trimmed_name (items (run false reqs store).2).
Proof.
  assert (Forall trimmed_name (items store)) as Hstore.
  { constructor; [|constructor; [|constructor]]; eexists _, _; by vm_compute. }
  revert Hstore. generalize store.
  induction reqs as [|[now req] reqs IH]; intros st Hst; [done|].
  rewrite run_cons. cbn [snd]. apply IH, Forall_serve; [|done].
  intros i v (props & s & _ & _ & Hne & ->)%fallback_value. split.
  - eexists _, _. split_and!; [done..|apply trim_trim].
  - intros old _. eexists _, _. split_and!; [done..|apply trim_trim].
Qed.

(** X14: with Joi loaded, every name in every store reached from the
    initial one is 1 to 120 code units long. *)
Theorem joi_store_bounded (reqs : list (Z * Request)) :
  Forall bounded_name (items (run true reqs store).2).
Proof.
  assert (Forall bounded_name (items store)) as Hstore.
  { constructor; [|constructor; [|constructor]]; intros n [= <-]; simpl; lia. }
  revert Hstore. generalize store.
  induction reqs as [|[now req] reqs IH]; intros st Hst; [done|].
  rewrite run_cons. cbn [snd]. apply IH, Forall_serve; [|done].
  intros i v Hv.
  assert (v = None \/ exists s d, v = Some (mkValidated (Some s) (Some d))
                                 /\ (1 <= length s <= 120)%nat) as [->|(s & d & -> & Hlen)].
  { destruct (match req with
              | POST_items body | PUT_items _ body => body
              | _ => BodyUndefined
              end) as [|elems|props]; [left|done|right].
    - by injection Hv as <-.
    - apply joi_object_value in Hv as (s & d & _ & -> & Hlen & _). eauto. }
  - split; [by intros n [=]|done].
  - split; [by intros n [= <-]|]. by intros old _ n [= <-].
Qed.

(** ** Configuration *)

Lemma split_length (sep : N) (s : jsstring) :
  length (split sep s) = S (length (filter (fun c => c = sep) s)).
Proof.
  unfold jsstring in *. induction s as [|c s IH]; [done|]. cbn [split].
  rewrite filter_cons. destruct (N.eqb_spec c sep) as [Heq|Hne].
  - rewrite decide_True by done. cbn [length]. by rewrite IH.
  - rewrite decide_False by done.
    destruct (split sep s) as [|part parts]; [done|]. by rewrite <- IH.
Qed.

Lemma split_no_sep (sep : N) (s : jsstring) :
  Forall (fun part => sep ∉ part) (split sep s).
Proof.
  induction s as [|c s IH]; simpl.
  - repeat constructor. apply not_elem_of_nil.
  - destruct (N.eqb_spec c sep) as [Heq|Hne].
    + constructor; [apply not_elem_of_nil|done].
    + destruct (split sep s) as [|part parts].
      * repeat constructor. by intros ->%list_elem_of_singleton.
      * apply Forall_cons in IH as [Hpart Hparts]. constructor; [|done].
        rewrite not_elem_of_cons. split; [congruence|done].
Qed.

(** X15: [config.corsOrigins] has one entry more than the variable
    CORS_ORIGINS has commas, so it is never empty; no entry holds a comma
    or has white space at either end; and when the variable is unset or
    empty the list is the single wildcard, which [cors] gets as ['*']. *)
Theorem corsOrigins_shape (CORS_ORIGINS : option jsstring) :
  length (corsOrigins CORS_ORIGINS)
    = S (length (filter (fun c => c = 44%N) (or_default CORS_ORIGINS (lit "*")))) /\
  Forall (fun origin => trim origin = origin /\ 44%N ∉ origin)
         (corsOrigins CORS_ORIGINS) /\
  (CORS_ORIGINS = None \/ CORS_ORIGINS = Some [] ->
   corsOrigins CORS_ORIGINS = [lit "*"] /\
   cors_origin (corsOrigins CORS_ORIGINS) = AnyOrigin).
Proof.
  unfold corsOrigins. split_and!.
  - by rewrite length_fmap, split_length.
  - apply Forall_fmap. eapply Forall_impl; [apply split_no_sep|].
    intros part Hpart. simpl. split; [apply trim_trim|].
    intros Hin. by apply Hpart, elem_of_trim.
  - by intros [->| ->].
Qed.

(** X16: [cors] gets the wildcard exactly when one of the comma-separated
    parts of CORS_ORIGINS (or of ['*'] when it is unset or empty) is an
    asterisk with only white space around it; otherwise it gets the whole
    list of trimmed parts. *)
Theorem cors_origin_wildcard (CORS_ORIGINS : option jsstring) :
  (exists part,
     part ∈ split 44 (or_default CORS_ORIGINS (lit "*")) /\ trim part = lit "*")
  /\ cors_origin (corsOrigins CORS_ORIGINS) = AnyOrigin
  \/
  (forall part,
     part ∈ split 44 (or_default CORS_ORIGINS (lit "*")) -> trim part ≠ lit "*")
  /\ cors_origin (corsOrigins CORS_ORIGINS) = AllowList (corsOrigins CORS_ORIGINS).
Proof.
  unfold cors_origin, corsOrigins. case_bool_decide as Hin.
  - left. split; [|done].
    apply list_elem_of_fmap in Hin as (part & Htrim & Hpart). by exists part.
  - right. split; [|done]. intros part Hpart Htrim.
    apply Hin, list_elem_of_fmap. by exists part.
Qed.

(** X17: a deleted id is gone. Right after DELETE /items/:id, whatever it
    answered, PUT on the same id finds nothing: it answers 404 when its
    body passes validation and 400 otherwise, and changes nothing. *)
Theorem delete_then_put (Joi : bool) (now now' : Z) (i : jsstring)
    (body : reqBody) (st : Store) :
  let st' := (serve Joi now (DELETE_items i) st).2 in
  res_status (serve Joi now' (PUT_items i body) st').1
    = (if valid Joi body then 404 else 400) /\
  (serve Joi now' (PUT_items i body) st').2 = st'.
Proof.
  cbv zeta. rewrite serve_delete_items. cbn [snd].
  rewrite serve_put_items. cbn [items]. unfold valid.
  destruct (validateItem Joi body) as [e|v] eqn:Hv.
  - by rewrite (validateItem_error _ _ _ Hv).
  - assert (list_find (fun x => id x = i) (filter (fun x => id x ≠ i) (items st))
            = None) as ->; [|done].
    apply list_find_None, Forall_forall.
    by intros x [Hx _]%list_elem_of_filter.
Qed.
